(** * The chat view's send-and-stream controller (src/App.vue)

    A shallow embedding of the [<script setup>] block of [src/App.vue]:
    the three reactive refs ([messages], [newMessageContent], [isLoading]),
    the asynchronous handler [sendMessage], and the collaborators it talks
    to ([Date.now], [Math.random], [apiClient.sendMessage], [console.error],
    [scrollToLatestMessage]).

    - JavaScript strings are sequences of UTF-16 code units.
    - JavaScript numbers are IEEE-754 binary64 values (Rocq's primitive
      floats), so [Date.now() + Math.random()] rounds as it does in the
      browser.
    - [sendMessage] is written in a small state-and-exception monad over
      the [World]; [try]/[catch]/[finally] and [for await] are combinators
      of that monad.
    - Every effect is logged together with what the template renders at
      that moment, so the intermediate states of a call are observable, in
      particular at each suspension of [for await]. *)

From Stdlib Require Import Floats NArith Ascii String Lia.
From stdpp Require Import base list.

(** ** Strings *)

Definition code_unit := N.
Definition JSString := list code_unit.

(** A string literal of the source, as code units. *)
Definition js (s : string) : JSString :=
  N_of_ascii <$> list_ascii_of_string s.

(** ECMAScript [WhiteSpace] and [LineTerminator] code points, the set that
    [String.prototype.trim] strips.  All of them lie in the BMP, so the test
    is exact on code units. *)
Definition isWhiteSpace (c : code_unit) : bool :=
  (existsb (N.eqb c)
     [ 0x0009; 0x000A; 0x000B; 0x000C; 0x000D; 0x0020; 0x00A0; 0x1680;
       0x2028; 0x2029; 0x202F; 0x205F; 0x3000; 0xFEFF ]%N
   || ((0x2000 <=? c) && (c <=? 0x200A))%N)%bool.

Fixpoint trimStart (s : JSString) : JSString :=
  match s with
  | [] => []
  | c :: rest => if isWhiteSpace c then trimStart rest else s
  end.

Definition trimEnd (s : JSString) : JSString := rev (trimStart (rev s)).

(** [String.prototype.trim] *)
Definition trim (s : JSString) : JSString := trimEnd (trimStart s).

(** Truthiness of a string: only the empty string is falsy. *)
Definition truthy (s : JSString) : bool :=
  match s with [] => false | _ :: _ => true end.

(** ** The data model *)

Inductive Sender := user | api.

Inductive Status := sending | sent | failed | streaming.

Record ChatMessage := {
  id : float;
  content : JSString;
  sender : Sender;
  status : option Status   (* [status?]: the field is optional *)
}.

Definition Sender_eqb (a b : Sender) : bool :=
  match a, b with
  | user, user | api, api => true
  | _, _ => false
  end.

Definition with_status (s : Status) (m : ChatMessage) : ChatMessage :=
  {| id := id m; content := content m; sender := sender m; status := Some s |}.

(** The generated protobuf message: only its [content] field is read. *)
Module Pb.
Record SendMessageResponse := { content : JSString }.
End Pb.

(** How an async iterator finishes: [next()] resolves with [done], or it
    rejects. *)
Inductive Ending := ends | rejects.

(** The [AsyncIterable] returned by [apiClient.sendMessage]: the chunks it
    yields, in order, and how it finishes after the last of them. *)
Record AsyncIterable := {
  chunks : list Pb.SendMessageResponse;
  ending : Ending
}.

(** What the template shows: [v-for="message in messages"], the [v-model]
    of the input, and [:disabled="isLoading"]. *)
Record Rendered := {
  shown : list ChatMessage;
  input : JSString;
  disabled : bool
}.

Inductive Effect :=
| Scroll                          (* scrollToLatestMessage() *)
| Rpc (payload : JSString)        (* apiClient.sendMessage({ content }) *)
| ConsoleError                    (* console.error(...) *)
| Await.                          (* suspended in [for await] until next() settles *)

(** An entry of the log: an effect, and the refs as they stand when it
    happens. *)
Record Event := {
  effect : Effect;
  visible : Rendered
}.

(** The environment of the component: the readings of the clock and of the
    random generator, by number of the call, and what the service streams
    back on each call. *)
Record Oracle := {
  clock : nat -> float;
  rng : nat -> float;
  server : nat -> JSString -> AsyncIterable
}.

Record World := {
  messages : list ChatMessage;      (* messages.value *)
  newMessageContent : JSString;     (* newMessageContent.value *)
  isLoading : bool;                 (* isLoading.value *)
  clock_reads : nat;
  rng_reads : nat;
  rpc_calls : nat;
  log : list Event
}.

Definition render (w : World) : Rendered :=
  {| shown := messages w; input := newMessageContent w; disabled := isLoading w |}.

(** What the view showed at each suspension, oldest first. *)
Definition awaits (l : list Event) : list Rendered :=
  omap (fun ev => match effect ev with Await => Some (visible ev) | _ => None end) l.

(** The payloads of the calls issued, each with the view at that moment. *)
Definition rpcs (l : list Event) : list (JSString * Rendered) :=
  omap (fun ev => match effect ev with Rpc p => Some (p, visible ev) | _ => None end) l.

(** ** The monad *)

Inductive Outcome (A : Type) :=
| Returned (a : A)
| Threw.
Arguments Returned {A} a.
Arguments Threw {A}.

Definition Js (A : Type) : Type := World -> Outcome A * World.

Definition ret {A} (a : A) : Js A := fun w => (Returned a, w).

Definition bind {A B} (c : Js A) (k : A -> Js B) : Js B :=
  fun w =>
    match c w with
    | (Returned a, w') => k a w'
    | (Threw, w') => (Threw, w')
    end.

Definition throw {A} : Js A := fun w => (Threw, w).

Declare Scope js_scope.
Delimit Scope js_scope with js.
Notation "x <- c ;; k" := (bind c (fun x => k))
  (at level 100, c at next level, right associativity) : js_scope.
Notation "c ;; k" := (bind c (fun _ => k))
  (at level 100, right associativity) : js_scope.
Local Open Scope js_scope.

(** [try { body } catch (error) { handler }] *)
Definition try_catch (body handler : Js unit) : Js unit :=
  fun w =>
    match body w with
    | (Returned _, w') => (Returned tt, w')
    | (Threw, w') => handler w'
    end.

(** [try { body } finally { cleanup }]: the cleanup always runs; the
    completion of the body stands unless the cleanup itself throws. *)
Definition try_finally (body cleanup : Js unit) : Js unit :=
  fun w =>
    match body w with
    | (r, w') =>
        match cleanup w' with
        | (Returned _, w'') => (r, w'')
        | (Threw, w'') => (Threw, w'')
        end
    end.

Definition gets {A} (f : World -> A) : Js A := fun w => (Returned (f w), w).

Definition modify (f : World -> World) : Js unit := fun w => (Returned tt, f w).

Definition set_messages (l : list ChatMessage) (w : World) : World :=
  {| messages := l; newMessageContent := newMessageContent w;
     isLoading := isLoading w; clock_reads := clock_reads w;
     rng_reads := rng_reads w; rpc_calls := rpc_calls w; log := log w |}.

Definition set_newMessageContent (s : JSString) (w : World) : World :=
  {| messages := messages w; newMessageContent := s;
     isLoading := isLoading w; clock_reads := clock_reads w;
     rng_reads := rng_reads w; rpc_calls := rpc_calls w; log := log w |}.

Definition set_isLoading (b : bool) (w : World) : World :=
  {| messages := messages w; newMessageContent := newMessageContent w;
     isLoading := b; clock_reads := clock_reads w;
     rng_reads := rng_reads w; rpc_calls := rpc_calls w; log := log w |}.

Definition emit (e : Effect) (w : World) : World :=
  {| messages := messages w; newMessageContent := newMessageContent w;
     isLoading := isLoading w; clock_reads := clock_reads w;
     rng_reads := rng_reads w; rpc_calls := rpc_calls w;
     log := log w ++ [{| effect := e; visible := render w |}] |}.

(** [messages.value.push(m)] *)
Definition push (m : ChatMessage) : Js unit :=
  modify (fun w => set_messages (messages w ++ [m]) w).

(** [Date.now()] *)
Definition Date_now (o : Oracle) : Js float :=
  fun w =>
    (Returned (clock o (clock_reads w)),
     {| messages := messages w; newMessageContent := newMessageContent w;
        isLoading := isLoading w; clock_reads := S (clock_reads w);
        rng_reads := rng_reads w; rpc_calls := rpc_calls w; log := log w |}).

(** [Math.random()] *)
Definition Math_random (o : Oracle) : Js float :=
  fun w =>
    (Returned (rng o (rng_reads w)),
     {| messages := messages w; newMessageContent := newMessageContent w;
        isLoading := isLoading w; clock_reads := clock_reads w;
        rng_reads := S (rng_reads w); rpc_calls := rpc_calls w; log := log w |}).

(** [apiClient.sendMessage({ content })]: issues the call and hands back the
    iterable; failures of the call surface when it is iterated. *)
Definition apiClient_sendMessage (o : Oracle) (payload : JSString)
  : Js AsyncIterable :=
  fun w =>
    (Returned (server o (rpc_calls w) payload),
     {| messages := messages w; newMessageContent := newMessageContent w;
        isLoading := isLoading w; clock_reads := clock_reads w;
        rng_reads := rng_reads w; rpc_calls := S (rpc_calls w);
        log := log w ++ [{| effect := Rpc payload; visible := render w |}] |}).

(** [scrollToLatestMessage()]: schedules a scroll on the next tick; it
    touches the DOM only. *)
Definition scrollToLatestMessage : Js unit := modify (emit Scroll).

Definition console_error : Js unit := modify (emit ConsoleError).

(** The function is suspended until [next()] settles; meanwhile the view is
    rendered from the refs as they stand. *)
Definition await_next : Js unit := modify (emit Await).

(** [for await (const x of iterable) body] *)
Fixpoint for_await_from (cs : list Pb.SendMessageResponse) (e : Ending)
    (body : Pb.SendMessageResponse -> Js unit) : Js unit :=
  match cs with
  | [] => await_next ;; match e with ends => ret tt | rejects => throw end
  | c :: rest => await_next ;; body c ;; for_await_from rest e body
  end.

Definition for_await (it : AsyncIterable)
    (body : Pb.SendMessageResponse -> Js unit) : Js unit :=
  for_await_from (chunks it) (ending it) body.

(** [a[i]] followed by a property read: reading a property of [undefined]
    throws a TypeError. *)
Definition item (l : list ChatMessage) (i : nat) : Js ChatMessage :=
  match l !! i with
  | Some m => ret m
  | None => throw
  end.

(** ** [sendMessage] *)

Definition sendMessage (o : Oracle) : Js unit :=
  content <- gets (fun w => trim (newMessageContent w)) ;;
  loading <- gets isLoading ;;
  if negb (truthy content) || loading then
    ret tt
  else
    modify (set_isLoading true) ;;
    modify (set_newMessageContent []) ;;
    now <- Date_now o ;;
    push {| id := now; content := content; sender := user; status := Some sent |} ;;
    scrollToLatestMessage ;;
    try_finally
      (try_catch
         (responseStream <- apiClient_sendMessage o content ;;
          for_await responseStream (fun responseChunk =>
            now <- Date_now o ;;
            random <- Math_random o ;;
            push {| id := now + random;
                    content := Pb.content responseChunk;
                    sender := api;
                    status := Some streaming |} ;;
            scrollToLatestMessage) ;;
          len <- gets (fun w => length (messages w)) ;;
          is_api <- (if 0 <? len then
                       msgs <- gets messages ;;
                       m <- item msgs (len - 1) ;;
                       ret (Sender_eqb (sender m) api)
                     else ret false) ;;
          if (is_api : bool) then
            msgs <- gets messages ;;
            _ <- item msgs (len - 1) ;;
            modify (fun w => set_messages (alter (with_status sent) (len - 1) (messages w)) w)
          else ret tt)
         (console_error ;;
          now <- Date_now o ;;
          random <- Math_random o ;;
          push {| id := now + random;
                  content := js "Error receiving message.";
                  sender := api;
                  status := Some failed |} ;;
          scrollToLatestMessage))
      (modify (set_isLoading false)).

(** The text field is bound to [newMessageContent] with [v-model]; pressing
    Enter or clicking the button with [text] in the field runs the handler. *)
Definition send (o : Oracle) (text : JSString) : Js unit :=
  modify (set_newMessageContent text) ;; sendMessage o.

(** The guard at the top of [sendMessage] lets the call through. *)
Definition accepted (w : World) : bool :=
  truthy (trim (newMessageContent w)) && negb (isLoading w).

(** The state of a freshly mounted component. *)
Definition mounted : World :=
  {| messages := []; newMessageContent := []; isLoading := false;
     clock_reads := 0; rng_reads := 0; rpc_calls := 0; log := [] |}.

(** ** Closed forms of the accepted path *)

(** The entry pushed for the user's text. *)
Definition user_entry (o : Oracle) (w : World) : ChatMessage :=
  {| id := clock o (clock_reads w);
     content := trim (newMessageContent w);
     sender := user;
     status := Some sent |}.

(** The entries pushed for the chunks [fs], when the clock has been read
    [c] times and the generator [r] times before the first of them. *)
Fixpoint chunk_entries (o : Oracle) (c r : nat)
    (fs : list Pb.SendMessageResponse) : list ChatMessage :=
  match fs with
  | [] => []
  | f :: rest =>
      {| id := clock o c + rng o r;
         content := Pb.content f;
         sender := api;
         status := Some streaming |} :: chunk_entries o (S c) (S r) rest
  end.

(** The entry pushed by the [catch] block. *)
Definition error_entry (o : Oracle) (c r : nat) : ChatMessage :=
  {| id := clock o c + rng o r;
     content := js "Error receiving message.";
     sender := api;
     status := Some failed |}.

(** The effect [e], logged while the view shows [l], [inp] and [dis]. *)
Definition seen (inp : JSString) (dis : bool) (e : Effect)
    (l : list ChatMessage) : Event :=
  {| effect := e; visible := {| shown := l; input := inp; disabled := dis |} |}.

(** The events of the [for await] loop that pushes [bs] after [before]. *)
Fixpoint loop_events (inp : JSString) (dis : bool)
    (before bs : list ChatMessage) : list Event :=
  match bs with
  | [] => [seen inp dis Await before]
  | b :: rest =>
      seen inp dis Await before :: seen inp dis Scroll (before ++ [b])
        :: loop_events inp dis (before ++ [b]) rest
  end.

(** The world when the loop over [fs] is left. *)
Definition streamed (o : Oracle) (fs : list Pb.SendMessageResponse)
    (w : World) : World :=
  let bs := chunk_entries o (clock_reads w) (rng_reads w) fs in
  {| messages := messages w ++ bs;
     newMessageContent := newMessageContent w;
     isLoading := isLoading w;
     clock_reads := clock_reads w + length fs;
     rng_reads := rng_reads w + length fs;
     rpc_calls := rpc_calls w;
     log := log w ++ loop_events (newMessageContent w) (isLoading w) (messages w) bs |}.

(** The status fix-up after the loop, on the whole transcript. *)
Definition finish (l : list ChatMessage) : list ChatMessage :=
  match last l with
  | Some m =>
      if Sender_eqb (sender m) api
      then alter (with_status sent) (length l - 1) l
      else l
  | None => l
  end.

(** The world an accepted call leaves behind. *)
Definition settled (o : Oracle) (w : World) : World :=
  let text := trim (newMessageContent w) in
  let it := server o (rpc_calls w) text in
  let n := length (chunks it) in
  let base := messages w ++ [user_entry o w] in
  let bs := chunk_entries o (S (clock_reads w)) (rng_reads w) (chunks it) in
  let err := error_entry o (S (clock_reads w) + n) (rng_reads w + n) in
  let upto :=
    log w ++ [seen [] true Scroll base; seen [] true (Rpc text) base]
          ++ loop_events [] true base bs in
  match ending it with
  | ends =>
      {| messages := finish (base ++ bs);
         newMessageContent := [];
         isLoading := false;
         clock_reads := S (clock_reads w) + n;
         rng_reads := rng_reads w + n;
         rpc_calls := S (rpc_calls w);
         log := upto |}
  | rejects =>
      {| messages := (base ++ bs) ++ [err];
         newMessageContent := [];
         isLoading := false;
         clock_reads := S (S (clock_reads w) + n);
         rng_reads := S (rng_reads w + n);
         rpc_calls := S (rpc_calls w);
         log := upto ++ [seen [] true ConsoleError (base ++ bs);
                         seen [] true Scroll ((base ++ bs) ++ [err])] |}
  end.

(** The part of the log written by a call that started in [w]. *)
Definition during (w w' : World) : list Event := drop (length (log w)) (log w').

(** ** The template *)

(** [:disabled="!newMessageContent.trim() || isLoading"] on the button. *)
Definition button_disabled (w : World) : bool :=
  negb (truthy (trim (newMessageContent w))) || isLoading w.

(** [:disabled="isLoading"] on the text field. *)
Definition input_disabled (w : World) : bool := isLoading w.

(** [@click="sendMessage"] on the button: a disabled button dispatches no
    click. *)
Definition click (o : Oracle) : Js unit :=
  fun w => if button_disabled w then (Returned tt, w) else sendMessage o w.

(** [@keyup.enter="sendMessage"] on the text field: a disabled field takes
    no key. *)
Definition keyup_enter (o : Oracle) : Js unit :=
  fun w => if input_disabled w then (Returned tt, w) else sendMessage o w.

(** ** Sessions *)

(** A user at the keyboard: each text in turn is put into the field and
    submitted, and the call runs to completion before the next one. *)
Definition session (o : Oracle) (texts : list JSString) (w : World) : World :=
  foldl (fun x text => snd (send o text x)) w texts.

(** The entries of the user, in transcript order. *)
Definition from_user (l : list ChatMessage) : list ChatMessage :=
  List.filter (fun m => Sender_eqb (sender m) user) l.

(** The three shapes of entry that [sendMessage] pushes or leaves behind. *)
Definition entry_shape (m : ChatMessage) : Prop :=
  (sender m = user /\ status m = Some sent /\ content m <> [])
  \/ (sender m = api /\ (status m = Some streaming \/ status m = Some sent))
  \/ (sender m = api /\ status m = Some failed
      /\ content m = js "Error receiving message.").

(** What the view showed at each scroll request, oldest first. *)
Definition scroll_views (l : list Event) : list Rendered :=
  omap (fun ev => match effect ev with Scroll => Some (visible ev) | _ => None end) l.

(** The text does not begin with white space. *)
Definition clean_start (s : JSString) : bool :=
  match s with
  | [] => true
  | c :: _ => negb (isWhiteSpace c)
  end.

(** ** Concrete runs *)

Definition chunk (s : string) : Pb.SendMessageResponse := {| Pb.content := js s |}.

(** A clock that stands still within the millisecond, a generator stuck on
    one value, and a service that streams [it] back on every call. *)
Definition steady (it : AsyncIterable) : Oracle :=
  {| clock := fun _ => 1700000000000%float;
     rng := fun _ => 0.25%float;
     server := fun _ _ => it |}.

(** The user has typed [text] into the field of an idle component. *)
Definition typed (text : string) : World :=
  set_newMessageContent (js text) mounted.

(** A click that arrives while an earlier call is still in flight. *)
Definition in_flight (text : string) : World :=
  set_isLoading true (typed text).

(** The user's entry is pushed at one millisecond; 42 ms later two chunks
    are handled within the same millisecond, and the generator returns two
    different values in [0, 1), 2^-14 apart. *)
Definition rapid : Oracle :=
  {| clock := fun k => match k with
                       | 0 => 1700000000000%float
                       | _ => 1700000000042%float
                       end;
     rng := fun k => match k with
                     | 0 => 0.5%float
                     | _ => (0.5 + 0x1p-14)%float
                     end;
     server := fun _ _ => {| chunks := [chunk "a"; chunk "b"]; ending := ends |} |}.

(** ** Strings: facts about [trim] *)

Lemma trimStart_all_ws (s : JSString) :
  forallb isWhiteSpace s = true -> trimStart s = [].
Proof.
  induction s as [|c s IH]; simpl; [reflexivity|].
  destruct (isWhiteSpace c); simpl; [exact IH | discriminate].
Qed.

Lemma trimStart_nil_inv (s : JSString) :
  trimStart s = [] -> forallb isWhiteSpace s = true.
Proof.
  induction s as [|c s IH]; simpl; [reflexivity|].
  destruct (isWhiteSpace c); simpl; [exact IH | discriminate].
Qed.

Lemma trimStart_app_ws (s t : JSString) :
  forallb isWhiteSpace s = true -> trimStart (s ++ t) = trimStart t.
Proof.
  induction s as [|c s IH]; simpl; [reflexivity|].
  destruct (isWhiteSpace c); simpl; [exact IH | discriminate].
Qed.

Lemma trimStart_suffix (s : JSString) :
  exists p, s = p ++ trimStart s /\ forallb isWhiteSpace p = true.
Proof.
  induction s as [|c s [p [E Hp]]]; simpl.
  - exists []. split; reflexivity.
  - destruct (isWhiteSpace c) eqn:Hc.
    + exists (c :: p). simpl. rewrite Hc, Hp. split; [congruence | reflexivity].
    + exists []. split; reflexivity.
Qed.

(** The trimmed text is empty exactly when the text is empty or consists of
    white space only. *)
Lemma trim_nil_iff (s : JSString) :
  trim s = [] <-> forallb isWhiteSpace s = true.
Proof.
  unfold trim, trimEnd. split.
  - intros H.
    assert (Hr : trimStart (rev (trimStart s)) = []).
    { rewrite <- (rev_involutive (trimStart _)), H. reflexivity. }
    apply trimStart_nil_inv in Hr.
    rewrite forallb_forall in Hr.
    destruct (trimStart_suffix s) as [p [E Hp]].
    rewrite E, forallb_app, Hp. simpl.
    apply forallb_forall. intros x Hx. apply Hr, in_rev.
    rewrite rev_involutive. exact Hx.
  - intros H. rewrite (trimStart_all_ws s H). reflexivity.
Qed.

(** ** Running the handler *)

(** The equations of the monad's operations, run on a world. *)

Lemma run_bind_ret {A B} (a : A) (k : A -> Js B) (w : World) :
  bind (ret a) k w = k a w.
Proof. reflexivity. Qed.

Lemma run_bind_throw {A B} (k : A -> Js B) (w : World) :
  bind throw k w = (Threw, w).
Proof. reflexivity. Qed.

Lemma run_bind_assoc {A B C} (c : Js A) (f : A -> Js B) (g : B -> Js C)
    (w : World) :
  bind (bind c f) g w = bind c (fun x => bind (f x) g) w.
Proof. unfold bind. destruct (c w) as [[a|] w']; reflexivity. Qed.

Lemma run_bind_gets {A B} (f : World -> A) (k : A -> Js B) (w : World) :
  bind (gets f) k w = k (f w) w.
Proof. reflexivity. Qed.

Lemma run_bind_modify {B} (f : World -> World) (k : unit -> Js B) (w : World) :
  bind (modify f) k w = k tt (f w).
Proof. reflexivity. Qed.

Lemma run_bind_push {B} (m : ChatMessage) (k : unit -> Js B) (w : World) :
  bind (push m) k w = k tt (set_messages (messages w ++ [m]) w).
Proof. reflexivity. Qed.

Lemma run_bind_scroll {B} (k : unit -> Js B) (w : World) :
  bind scrollToLatestMessage k w = k tt (emit Scroll w).
Proof. reflexivity. Qed.

Lemma run_scroll (w : World) :
  scrollToLatestMessage w = (Returned tt, emit Scroll w).
Proof. reflexivity. Qed.

Lemma run_bind_console_error {B} (k : unit -> Js B) (w : World) :
  bind console_error k w = k tt (emit ConsoleError w).
Proof. reflexivity. Qed.

Lemma run_bind_await {B} (k : unit -> Js B) (w : World) :
  bind await_next k w = k tt (emit Await w).
Proof. reflexivity. Qed.

Lemma run_bind_Date_now {B} (o : Oracle) (k : float -> Js B) (w : World) :
  bind (Date_now o) k w
  = k (clock o (clock_reads w))
      {| messages := messages w; newMessageContent := newMessageContent w;
         isLoading := isLoading w; clock_reads := S (clock_reads w);
         rng_reads := rng_reads w; rpc_calls := rpc_calls w; log := log w |}.
Proof. reflexivity. Qed.

Lemma run_bind_Math_random {B} (o : Oracle) (k : float -> Js B) (w : World) :
  bind (Math_random o) k w
  = k (rng o (rng_reads w))
      {| messages := messages w; newMessageContent := newMessageContent w;
         isLoading := isLoading w; clock_reads := clock_reads w;
         rng_reads := S (rng_reads w); rpc_calls := rpc_calls w; log := log w |}.
Proof. reflexivity. Qed.

Lemma run_bind_rpc {B} (o : Oracle) (payload : JSString)
    (k : AsyncIterable -> Js B) (w : World) :
  bind (apiClient_sendMessage o payload) k w
  = k (server o (rpc_calls w) payload)
      {| messages := messages w; newMessageContent := newMessageContent w;
         isLoading := isLoading w; clock_reads := clock_reads w;
         rng_reads := rng_reads w; rpc_calls := S (rpc_calls w);
         log := log w ++ [{| effect := Rpc payload; visible := render w |}] |}.
Proof. reflexivity. Qed.

Create Rewrite HintDb js_run.
#[local] Hint Rewrite @run_bind_ret @run_bind_throw @run_bind_assoc
  @run_bind_gets @run_bind_modify @run_bind_push @run_bind_scroll run_scroll
  @run_bind_console_error @run_bind_await @run_bind_Date_now
  @run_bind_Math_random @run_bind_rpc : js_run.

(** Run the straight-line code at the head of the goal, then read the
    fields of the worlds it built. *)
Ltac js_fields :=
  unfold emit, set_messages, set_isLoading, set_newMessageContent, render;
  cbn [messages newMessageContent isLoading clock_reads rng_reads rpc_calls
       log ret modify].

Ltac js_run := autorewrite with js_run; js_fields.

(** The body of the [for await] loop, as it stands in [sendMessage]. *)
Local Abbreviation chunk_body o :=
  (fun responseChunk =>
     now <- Date_now o ;;
     random <- Math_random o ;;
     push {| id := now + random;
             content := Pb.content responseChunk;
             sender := api;
             status := Some streaming |} ;;
     scrollToLatestMessage).

Lemma for_await_from_run (o : Oracle) (fs : list Pb.SendMessageResponse)
    (e : Ending) (w : World) :
  for_await_from fs e (chunk_body o) w
  = (match e with ends => Returned tt | rejects => Threw end, streamed o fs w).
Proof.
  revert w. induction fs as [|f fs IH]; intros w.
  - destruct w, e; unfold streamed; simpl;
      rewrite ?app_nil_r, ?Nat.add_0_r; reflexivity.
  - cbn [for_await_from]. js_run. rewrite IH.
    unfold streamed. js_fields. cbn [chunk_entries loop_events seen length].
    rewrite <- !app_assoc, !Nat.add_succ_r. reflexivity.
Qed.

Lemma last_index_lookup (l : list ChatMessage) :
  l !! (length l - 1) = last l.
Proof. rewrite last_lookup, Nat.sub_1_r. reflexivity. Qed.

(** A call that passes the guard returns normally and leaves [settled]. *)
Lemma sendMessage_accepted (o : Oracle) (w : World) :
  accepted w = true -> sendMessage o w = (Returned tt, settled o w).
Proof.
  unfold accepted. intros Hacc. apply andb_true_iff in Hacc as [Ht Hl].
  apply negb_true_iff in Hl.
  unfold sendMessage. js_run. rewrite Ht, Hl. cbn [negb orb]. js_run.
  unfold try_finally, try_catch. js_run.
  unfold for_await. unfold bind at 1. rewrite for_await_from_run.
  unfold settled, streamed, user_entry, seen. js_fields.
  set (u := {| id := clock o (clock_reads w);
               content := trim (newMessageContent w);
               sender := user;
               status := Some sent |}).
  set (it := server o (rpc_calls w) (trim (newMessageContent w))).
  set (bs := chunk_entries o (S (clock_reads w)) (rng_reads w) (chunks it)).
  set (l := (messages w ++ [u]) ++ bs).
  destruct (ending it) eqn:He.
  - (* the stream ends: the fix-up runs on a transcript that is not empty *)
    assert (Hpos : (0 <? length l) = true).
    { apply Nat.ltb_lt. subst l. rewrite !length_app. simpl. lia. }
    assert (Hlast : exists m, last l = Some m).
    { destruct (last l) as [m|] eqn:E; [eauto|].
      apply last_None in E. apply (f_equal length) in E.
      subst l. rewrite !length_app in E. simpl in E. lia. }
    destruct Hlast as [m Hm].
    js_run. rewrite Hpos. js_run.
    unfold item. rewrite last_index_lookup, Hm. js_run.
    unfold finish. rewrite Hm.
    destruct (Sender_eqb (sender m) api).
    + js_run. rewrite last_index_lookup, Hm. js_run.
      rewrite <- !app_assoc. reflexivity.
    + js_fields. rewrite <- !app_assoc. reflexivity.
  - (* the stream rejects: the handler pushes the error entry *)
    js_run. unfold error_entry. rewrite <- !app_assoc. reflexivity.
Qed.

(** A call stopped by the guard returns at once and touches nothing: no ref,
    no clock or generator reading, no call, no log entry. *)
Lemma sendMessage_rejected (o : Oracle) (w : World) :
  accepted w = false -> sendMessage o w = (Returned tt, w).
Proof.
  unfold accepted, sendMessage. intros Hrej.
  unfold bind at 1. cbn [gets]. unfold bind at 1. cbn [gets].
  destruct (truthy (trim (newMessageContent w))), (isLoading w);
    simpl in Hrej; try discriminate; reflexivity.
Qed.

Lemma sendMessage_returns (o : Oracle) (w : World) :
  fst (sendMessage o w) = Returned tt.
Proof.
  destruct (accepted w) eqn:Hacc.
  - rewrite sendMessage_accepted by assumption. reflexivity.
  - rewrite sendMessage_rejected by assumption. reflexivity.
Qed.

Lemma accepted_intro (w : World) :
  trim (newMessageContent w) <> [] -> isLoading w = false -> accepted w = true.
Proof.
  unfold accepted. intros Ht ->.
  destruct (trim (newMessageContent w)); [contradiction | reflexivity].
Qed.

(** ** The entries of the streamed chunks *)

Lemma length_chunk_entries (o : Oracle) (c r : nat)
    (fs : list Pb.SendMessageResponse) :
  length (chunk_entries o c r fs) = length fs.
Proof.
  revert c r. induction fs as [|f fs IH]; intros c r; simpl;
    [reflexivity | rewrite IH; reflexivity].
Qed.

Lemma chunk_entries_lookup (o : Oracle) (c r : nat)
    (fs : list Pb.SendMessageResponse) (k : nat) (f : Pb.SendMessageResponse) :
  fs !! k = Some f ->
  chunk_entries o c r fs !! k
  = Some {| id := clock o (c + k) + rng o (r + k);
            content := Pb.content f;
            sender := api;
            status := Some streaming |}.
Proof.
  revert c r k. induction fs as [|g fs IH]; intros c r k Hk.
  - discriminate.
  - destruct k as [|k]; simpl in *.
    + inversion Hk; subst. rewrite !Nat.add_0_r. reflexivity.
    + rewrite (IH (S c) (S r) k Hk), !Nat.add_succ_r. reflexivity.
Qed.

Lemma chunk_entries_api (o : Oracle) (c r : nat)
    (fs : list Pb.SendMessageResponse) :
  Forall (fun m => sender m = api /\ status m = Some streaming)
         (chunk_entries o c r fs).
Proof.
  revert c r. induction fs as [|f fs IH]; intros c r; simpl; constructor;
    [split; reflexivity | apply IH].
Qed.

Lemma chunk_entries_streaming (o : Oracle) (c r : nat)
    (fs : list Pb.SendMessageResponse) :
  with_status streaming <$> chunk_entries o c r fs = chunk_entries o c r fs.
Proof.
  revert c r. induction fs as [|f fs IH]; intros c r; simpl;
    [reflexivity | rewrite IH; reflexivity].
Qed.

(** ** The fix-up *)

(** After an empty stream the last entry is the user's: nothing changes. *)
Lemma finish_user_last (l : list ChatMessage) (u : ChatMessage) :
  sender u = user -> finish (l ++ [u]) = l ++ [u].
Proof.
  intros Hu. unfold finish. rewrite last_snoc, Hu. reflexivity.
Qed.

(** After at least one chunk the last entry is the last chunk's: it alone is
    marked. *)
Lemma finish_chunks (base : list ChatMessage) (o : Oracle) (c r : nat)
    (fs : list Pb.SendMessageResponse) :
  fs <> [] ->
  finish (base ++ chunk_entries o c r fs)
  = base ++ alter (with_status sent) (length fs - 1) (chunk_entries o c r fs).
Proof.
  intros Hne. unfold finish.
  pose proof (length_chunk_entries o c r fs) as Hlen.
  pose proof (chunk_entries_api o c r fs) as Hapi.
  set (bs := chunk_entries o c r fs) in *.
  assert (Hpos : 0 < length fs) by (destruct fs; [contradiction | simpl; lia]).
  destruct (last bs) as [b|] eqn:Hb.
  - rewrite last_app, Hb.
    assert (Hin : b ∈ bs) by (apply list_elem_of_lookup; exists (pred (length bs));
                               rewrite <- last_lookup; exact Hb).
    rewrite Forall_forall in Hapi. destruct (Hapi b Hin) as [-> _].
    cbn [Sender_eqb]. rewrite length_app, Hlen.
    rewrite alter_app_r_alt by lia. f_equal. f_equal. lia.
  - apply last_None in Hb. apply (f_equal length) in Hb.
    simpl in Hb. lia.
Qed.

(** ** The log of a call *)

Lemma awaits_app (l1 l2 : list Event) : awaits (l1 ++ l2) = awaits l1 ++ awaits l2.
Proof. apply omap_app. Qed.

Lemma rpcs_app (l1 l2 : list Event) : rpcs (l1 ++ l2) = rpcs l1 ++ rpcs l2.
Proof. apply omap_app. Qed.

Lemma awaits_loop_events (inp : JSString) (dis : bool)
    (before bs : list ChatMessage) (k : nat) :
  k <= length bs ->
  awaits (loop_events inp dis before bs) !! k
  = Some {| shown := before ++ take k bs; input := inp; disabled := dis |}.
Proof.
  revert before k. induction bs as [|b bs IH]; intros before k Hk.
  - simpl in Hk. assert (k = 0) as -> by lia. simpl. rewrite app_nil_r. reflexivity.
  - destruct k as [|k].
    + simpl. rewrite app_nil_r. reflexivity.
    + simpl in Hk. change (awaits (loop_events inp dis before (b :: bs)) !! S k)
        with (awaits (loop_events inp dis (before ++ [b]) bs) !! k).
      rewrite IH by lia. simpl. rewrite <- app_assoc. reflexivity.
Qed.

Lemma length_awaits_loop_events (inp : JSString) (dis : bool)
    (before bs : list ChatMessage) :
  length (awaits (loop_events inp dis before bs)) = S (length bs).
Proof.
  revert before. induction bs as [|b bs IH]; intros before; [reflexivity|].
  change (awaits (loop_events inp dis before (b :: bs)))
    with ({| shown := before; input := inp; disabled := dis |}
            :: awaits (loop_events inp dis (before ++ [b]) bs)).
  simpl. rewrite IH. reflexivity.
Qed.

Lemma last_awaits_loop_events (inp : JSString) (dis : bool)
    (before bs : list ChatMessage) :
  last (awaits (loop_events inp dis before bs))
  = Some {| shown := before ++ bs; input := inp; disabled := dis |}.
Proof.
  rewrite last_lookup, length_awaits_loop_events. simpl.
  rewrite awaits_loop_events by lia. rewrite firstn_all. reflexivity.
Qed.

Lemma rpcs_loop_events (inp : JSString) (dis : bool)
    (before bs : list ChatMessage) :
  rpcs (loop_events inp dis before bs) = [].
Proof.
  revert before. induction bs as [|b bs IH]; intros before; [reflexivity|].
  change (rpcs (loop_events inp dis before (b :: bs)))
    with (rpcs (loop_events inp dis (before ++ [b]) bs)).
  apply IH.
Qed.

(** Throughout the loop the view shows [before], then chunks read so far. *)
Lemma loop_events_shown (inp : JSString) (dis : bool)
    (before bs : list ChatMessage) :
  Forall (fun ev => exists k, shown (visible ev) = before ++ take k bs)
         (loop_events inp dis before bs).
Proof.
  revert before. induction bs as [|b bs IH]; intros before.
  - constructor; [|constructor]. exists 0. simpl. rewrite app_nil_r. reflexivity.
  - simpl. constructor; [|constructor].
    + exists 0. simpl. rewrite app_nil_r. reflexivity.
    + exists 1. reflexivity.
    + eapply Forall_impl; [apply IH|]. intros ev [k Hk]. exists (S k).
      rewrite Hk, <- app_assoc. reflexivity.
Qed.

Lemma awaits_prelude (text : JSString) (base : list ChatMessage)
    (rest : list Event) :
  awaits ([seen [] true Scroll base; seen [] true (Rpc text) base] ++ rest)
  = awaits rest.
Proof. reflexivity. Qed.

Lemma rpcs_prelude (text : JSString) (base : list ChatMessage)
    (rest : list Event) :
  rpcs ([seen [] true Scroll base; seen [] true (Rpc text) base] ++ rest)
  = (text, {| shown := base; input := []; disabled := true |}) :: rpcs rest.
Proof. reflexivity. Qed.

(** What an accepted call writes to the log. *)
Lemma during_settled (o : Oracle) (w : World) :
  let text := trim (newMessageContent w) in
  let it := server o (rpc_calls w) text in
  let n := length (chunks it) in
  let base := messages w ++ [user_entry o w] in
  let bs := chunk_entries o (S (clock_reads w)) (rng_reads w) (chunks it) in
  let err := error_entry o (S (clock_reads w) + n) (rng_reads w + n) in
  during w (settled o w)
  = [seen [] true Scroll base; seen [] true (Rpc text) base]
      ++ loop_events [] true base bs
      ++ match ending it with
         | ends => []
         | rejects => [seen [] true ConsoleError (base ++ bs);
                       seen [] true Scroll ((base ++ bs) ++ [err])]
         end.
Proof.
  intros. unfold during, settled. fold text it n base bs err.
  destruct (ending it); cbn [log].
  - rewrite app_nil_r, drop_app_length. reflexivity.
  - rewrite <- !app_assoc, drop_app_length. reflexivity.
Qed.

(** ** What an accepted call leaves in the transcript and in the log *)

Lemma marked_chunks_api (o : Oracle) (c r i : nat)
    (fs : list Pb.SendMessageResponse) :
  Forall (fun m => sender m = api)
         (alter (with_status sent) i (chunk_entries o c r fs)).
Proof.
  apply Forall_forall. intros m Hm.
  apply list_elem_of_lookup in Hm as [j Hj].
  pose proof (chunk_entries_api o c r fs) as Hapi.
  rewrite Forall_forall in Hapi.
  rewrite list_lookup_alter in Hj.
  destruct (decide (i = j)) as [E|E].
  - destruct (chunk_entries o c r fs !! i) as [b|] eqn:Hb; [|discriminate].
    inversion Hj; subst m. cbn [with_status sender].
    apply (Hapi b). apply list_elem_of_lookup. eauto.
  - apply (Hapi m). apply list_elem_of_lookup. eauto.
Qed.

Section AcceptedCall.

Variable o : Oracle.
Variable w : World.

(** The transcript after an accepted call: what was there, the user's entry,
    then entries of the service only. *)
Lemma settled_messages :
  exists remote,
    messages (settled o w) = messages w ++ user_entry o w :: remote
    /\ Forall (fun m => sender m = api) remote.
Proof.
  unfold settled.
  set (it := server o (rpc_calls w) (trim (newMessageContent w))).
  destruct (ending it); cbn [messages].
  - destruct (chunks it) as [|f fs] eqn:Hc.
    + exists []. cbn [chunk_entries]. rewrite app_nil_r.
      rewrite finish_user_last by reflexivity. split; [reflexivity | constructor].
    + eexists. rewrite finish_chunks by discriminate.
      rewrite <- app_assoc. split; [reflexivity | apply marked_chunks_api].
  - eexists. rewrite <- !app_assoc. split; [reflexivity|].
    apply Forall_app. split.
    + eapply Forall_impl; [apply chunk_entries_api|]. intros m [H _]. exact H.
    + constructor; [reflexivity | constructor].
Qed.

(** One call is issued, with the trimmed text, when the user's entry is the
    last of the transcript. *)
Lemma settled_rpcs :
  rpcs (during w (settled o w))
  = [(trim (newMessageContent w),
      {| shown := messages w ++ [user_entry o w]; input := []; disabled := true |})].
Proof.
  pose proof (during_settled o w) as Hd. cbv zeta in Hd. rewrite Hd.
  rewrite rpcs_prelude, rpcs_app, rpcs_loop_events.
  destruct (ending _); reflexivity.
Qed.

(** At every logged moment of the call the user's entry is in place. *)
Lemma settled_shown :
  Forall (fun ev => exists rest,
              shown (visible ev) = messages w ++ user_entry o w :: rest)
         (during w (settled o w)).
Proof.
  pose proof (during_settled o w) as Hd. cbv zeta in Hd. rewrite Hd.
  set (u := user_entry o w).
  set (bs := chunk_entries o _ _ _).
  apply Forall_app. split.
  - constructor; [exists []; reflexivity|].
    constructor; [exists []; reflexivity | constructor].
  - apply Forall_app. split.
    + eapply Forall_impl; [apply loop_events_shown|]. intros ev [k Hk].
      exists (take k bs). rewrite Hk, <- app_assoc. reflexivity.
    + destruct (ending _); [constructor|].
      constructor; [exists bs; cbn; rewrite <- app_assoc; reflexivity|].
      constructor; [|constructor].
      eexists. cbn. rewrite <- !app_assoc. reflexivity.
Qed.

End AcceptedCall.

(** ** Clicks while a call is in flight *)




(** ** Properties of [sendMessage] *)

Lemma fmap_streaming_marked (o : Oracle) (c r i : nat)
    (fs : list Pb.SendMessageResponse) :
  with_status streaming <$> alter (with_status sent) i (chunk_entries o c r fs)
  = chunk_entries o c r fs.
Proof.
  rewrite <- (chunk_entries_streaming o c r fs) at 2.
  apply list_eq. intros j. rewrite !list_lookup_fmap, list_lookup_alter.
  destruct (decide (i = j)) as [->|]; [|reflexivity].
  destruct (chunk_entries o c r fs !! j); reflexivity.
Qed.

(** C1. An accepted call whose stream yields the fragments [fs], at least
    one, and then ends: the transcript gains the user's entry and then one
    [api] entry per fragment, in order of arrival, the k-th carrying the
    k-th fragment's text.  At the k-th suspension of the loop the view shows
    the first k of them, all [streaming]; when the call is over the last
    one is [sent] and the others are still [streaming]. *)
Theorem fragments_become_entries (o : Oracle) (w : World)
    (fs : list Pb.SendMessageResponse) :
  accepted w = true ->
  server o (rpc_calls w) (trim (newMessageContent w))
    = {| chunks := fs; ending := ends |} ->
  fs <> [] ->
  let w' := snd (sendMessage o w) in
  exists (u : ChatMessage) (remote : list ChatMessage),
    messages w' = messages w ++ u :: remote
    /\ sender u = user
    /\ length remote = length fs
    /\ (forall k f, fs !! k = Some f ->
          exists m, remote !! k = Some m
                    /\ sender m = api
                    /\ content m = Pb.content f
                    /\ status m = Some (if decide (S k = length fs)
                                        then sent else streaming))
    /\ length (awaits (during w w')) = S (length fs)
    /\ (forall k, k <= length fs ->
          awaits (during w w') !! k
          = Some {| shown := messages w ++ u
                               :: (with_status streaming <$> take k remote);
                    input := [];
                    disabled := true |}).
Proof.
  intros Hacc Hs Hne w'. subst w'. rewrite sendMessage_accepted by assumption.
  cbn [snd]. pose proof (during_settled o w) as Hd. cbv zeta in Hd.
  rewrite Hd. clear Hd. unfold settled. rewrite Hs. cbn [chunks ending messages].
  set (bs := chunk_entries o (S (clock_reads w)) (rng_reads w) fs).
  exists (user_entry o w), (alter (with_status sent) (length fs - 1) bs).
  assert (Hpos : 0 < length fs) by (destruct fs; [contradiction | simpl; lia]).
  split; [|split; [|split; [|split; [|split]]]].
  - subst bs. rewrite finish_chunks by assumption.
    rewrite <- app_assoc. reflexivity.
  - reflexivity.
  - subst bs. rewrite length_alter. apply length_chunk_entries.
  - intros k f Hk.
    pose proof (chunk_entries_lookup o (S (clock_reads w)) (rng_reads w) fs k f Hk) as Hb.
    fold bs in Hb. rewrite list_lookup_alter.
    assert (Hlt : k < length fs) by (apply lookup_lt_is_Some; eauto).
    destruct (decide (length fs - 1 = k)) as [E|E].
    + subst k. rewrite Hb. cbn [fmap option_fmap option_map with_status].
      eexists. split; [reflexivity|]. cbn [sender content status id].
      destruct (decide (S (length fs - 1) = length fs)); [auto | lia].
    + rewrite Hb. eexists. split; [reflexivity|]. cbn [sender content status].
      destruct (decide (S k = length fs)); [lia | auto].
  - rewrite app_nil_r, awaits_prelude, length_awaits_loop_events. subst bs.
    rewrite length_chunk_entries. reflexivity.
  - intros k Hk. rewrite app_nil_r, awaits_prelude.
    rewrite awaits_loop_events
      by (subst bs; rewrite length_chunk_entries; exact Hk).
    rewrite fmap_take. subst bs. rewrite fmap_streaming_marked.
    rewrite <- app_assoc. reflexivity.
Qed.

Lemma fragments_become_entries_abc :
  let fs := [chunk "a"; chunk "b"; chunk "c"] in
  let o := steady {| chunks := fs; ending := ends |} in
  let w := typed "hello" in
  let w' := snd (sendMessage o w) in
  exists (u : ChatMessage) (remote : list ChatMessage),
    messages w' = messages w ++ u :: remote
    /\ sender u = user
    /\ length remote = length fs
    /\ (forall k f, fs !! k = Some f ->
          exists m, remote !! k = Some m
                    /\ sender m = api
                    /\ content m = Pb.content f
                    /\ status m = Some (if decide (S k = length fs)
                                        then sent else streaming))
    /\ length (awaits (during w w')) = S (length fs)
    /\ (forall k, k <= length fs ->
          awaits (during w w') !! k
          = Some {| shown := messages w ++ u
                               :: (with_status streaming <$> take k remote);
                    input := [];
                    disabled := true |}).
Proof.
  apply (fragments_become_entries
           (steady {| chunks := [chunk "a"; chunk "b"; chunk "c"]; ending := ends |})
           (typed "hello") [chunk "a"; chunk "b"; chunk "c"]);
    [reflexivity | reflexivity | discriminate].
Defined.

(** C2. An accepted call whose stream rejects after the fragments [fs]
    (none, some, or all of them): the call still returns normally; the
    transcript gains the user's entry, one [streaming] entry per fragment
    received, and then exactly one [failed] entry with the fixed text.  The
    earlier entries are the ones the view showed at the last suspension
    before the failure, unchanged. *)
Theorem stream_failure_is_absorbed (o : Oracle) (w : World)
    (fs : list Pb.SendMessageResponse) :
  accepted w = true ->
  server o (rpc_calls w) (trim (newMessageContent w))
    = {| chunks := fs; ending := rejects |} ->
  let w' := snd (sendMessage o w) in
  fst (sendMessage o w) = Returned tt
  /\ exists (u : ChatMessage) (remote : list ChatMessage) (e : ChatMessage),
       messages w' = messages w ++ u :: remote ++ [e]
       /\ sender u = user
       /\ length remote = length fs
       /\ (forall k f, fs !! k = Some f ->
             exists m, remote !! k = Some m
                       /\ sender m = api
                       /\ content m = Pb.content f
                       /\ status m = Some streaming)
       /\ sender e = api
       /\ status e = Some failed
       /\ content e = js "Error receiving message."
       /\ last (awaits (during w w'))
          = Some {| shown := messages w ++ u :: remote;
                    input := [];
                    disabled := true |}.
Proof.
  intros Hacc Hs w'. subst w'. split; [apply sendMessage_returns|].
  rewrite sendMessage_accepted by assumption. cbn [snd].
  pose proof (during_settled o w) as Hd. cbv zeta in Hd.
  rewrite Hd. clear Hd. unfold settled. rewrite Hs. cbn [chunks ending messages].
  set (bs := chunk_entries o (S (clock_reads w)) (rng_reads w) fs).
  exists (user_entry o w), bs,
    (error_entry o (S (clock_reads w) + length fs) (rng_reads w + length fs)).
  split; [|split; [|split; [|split; [|split; [|split; [|split]]]]]];
    try reflexivity.
  - rewrite <- !app_assoc. reflexivity.
  - apply length_chunk_entries.
  - intros k f Hk. subst bs. rewrite (chunk_entries_lookup _ _ _ _ _ _ Hk).
    eexists. split; [reflexivity|]. auto.
  - rewrite awaits_prelude, awaits_app. cbn [awaits omap seen effect].
    rewrite app_nil_r.
    fold (awaits (loop_events [] true (messages w ++ [user_entry o w]) bs)).
    rewrite last_awaits_loop_events, <- app_assoc. reflexivity.
Qed.

Lemma stream_failure_is_absorbed_partial :
  let fs := [chunk "partial"] in
  let o := steady {| chunks := fs; ending := rejects |} in
  let w := typed "hello" in
  let w' := snd (sendMessage o w) in
  fst (sendMessage o w) = Returned tt
  /\ exists (u : ChatMessage) (remote : list ChatMessage) (e : ChatMessage),
       messages w' = messages w ++ u :: remote ++ [e]
       /\ sender u = user
       /\ length remote = length fs
       /\ (forall k f, fs !! k = Some f ->
             exists m, remote !! k = Some m
                       /\ sender m = api
                       /\ content m = Pb.content f
                       /\ status m = Some streaming)
       /\ sender e = api
       /\ status e = Some failed
       /\ content e = js "Error receiving message."
       /\ last (awaits (during w w'))
          = Some {| shown := messages w ++ u :: remote;
                    input := [];
                    disabled := true |}.
Proof.
  apply (stream_failure_is_absorbed
           (steady {| chunks := [chunk "partial"]; ending := rejects |})
           (typed "hello") [chunk "partial"]);
    reflexivity.
Defined.

(** C3, as the code has it.  An accepted call leaves the busy flag false and
    the input buffer empty; a call stopped by the guard leaves both as they
    were. *)
Theorem flag_and_buffer_after_call (o : Oracle) (w : World) :
  let w' := snd (sendMessage o w) in
  isLoading w' = (if accepted w then false else isLoading w)
  /\ newMessageContent w'
     = (if accepted w then [] else newMessageContent w).
Proof.
  intros w'. subst w'. destruct (accepted w) eqn:Hacc.
  - rewrite sendMessage_accepted by assumption. cbn [snd]. unfold settled.
    destruct (ending _); split; reflexivity.
  - rewrite sendMessage_rejected by assumption. split; reflexivity.
Qed.

(** C3 does not hold for every call the guard stops.  A click while an
    earlier call is in flight returns with the busy flag still true; and a
    call on an idle component with an empty field is stopped although the
    buffer is empty afterwards. *)
Lemma rejected_call_keeps_flag_and_buffer :
  let o := steady {| chunks := []; ending := ends |} in
  (let w := in_flight "hi" in
   let w' := snd (sendMessage o w) in
   isLoading w' = true
   /\ ~ (isLoading w' = false
         /\ (newMessageContent w' = [] <-> accepted w = true)))
  /\ (let w := mounted in
      let w' := snd (sendMessage o w) in
      (newMessageContent w' = [] /\ accepted w = false)
      /\ ~ (isLoading w' = false
            /\ (newMessageContent w' = [] <-> accepted w = true))).
Proof.
  cbv zeta. split; split.
  - reflexivity.
  - intros [Hflag _]. discriminate Hflag.
  - split; reflexivity.
  - intros [_ [Hacc _]]. specialize (Hacc eq_refl). discriminate Hacc.
Qed.

(** C5. A call on an idle component whose field holds text that is not empty
    once trimmed: the transcript gains exactly one [user] entry, with status
    [sent]; everything after it comes from the service.  The one outbound
    call is issued when that entry is already the last of the transcript,
    and at every moment logged during the call the entry is there, as it
    was pushed. *)
Theorem user_entry_precedes_the_call (o : Oracle) (w : World) :
  trim (newMessageContent w) <> [] ->
  isLoading w = false ->
  let w' := snd (sendMessage o w) in
  exists (u : ChatMessage) (remote : list ChatMessage),
    messages w' = messages w ++ u :: remote
    /\ sender u = user
    /\ status u = Some sent
    /\ Forall (fun m => sender m = api) remote
    /\ (exists v, rpcs (during w w') = [(trim (newMessageContent w), v)]
                  /\ shown v = messages w ++ [u])
    /\ Forall (fun ev => exists rest,
                   shown (visible ev) = messages w ++ u :: rest)
              (during w w').
Proof.
  intros Ht Hl w'. subst w'.
  pose proof (accepted_intro w Ht Hl) as Hacc.
  rewrite sendMessage_accepted by assumption. cbn [snd].
  destruct (settled_messages o w) as [remote [Hm Hr]].
  exists (user_entry o w), remote.
  split; [exact Hm|]. split; [reflexivity|]. split; [reflexivity|].
  split; [exact Hr|]. split.
  - rewrite settled_rpcs. eexists. split; reflexivity.
  - apply settled_shown.
Qed.

Lemma user_entry_precedes_the_call_hello :
  let o := steady {| chunks := [chunk "a"; chunk "b"]; ending := rejects |} in
  let w := typed "hello" in
  let w' := snd (sendMessage o w) in
  exists (u : ChatMessage) (remote : list ChatMessage),
    messages w' = messages w ++ u :: remote
    /\ sender u = user
    /\ status u = Some sent
    /\ Forall (fun m => sender m = api) remote
    /\ (exists v, rpcs (during w w') = [(trim (newMessageContent w), v)]
                  /\ shown v = messages w ++ [u])
    /\ Forall (fun ev => exists rest,
                   shown (visible ev) = messages w ++ u :: rest)
              (during w w').
Proof.
  apply (user_entry_precedes_the_call
           (steady {| chunks := [chunk "a"; chunk "b"]; ending := rejects |})
           (typed "hello"));
    [discriminate | reflexivity].
Defined.

(** C6. An accepted call whose stream ends without a fragment: the
    transcript gains the user's entry, exactly as pushed, and nothing else;
    what was there before is unchanged; the call returns normally with the
    busy flag false. *)
Theorem empty_stream_adds_no_remote_entry (o : Oracle) (w : World) :
  accepted w = true ->
  server o (rpc_calls w) (trim (newMessageContent w))
    = {| chunks := []; ending := ends |} ->
  let w' := snd (sendMessage o w) in
  messages w'
  = messages w ++ [{| id := clock o (clock_reads w);
                      content := trim (newMessageContent w);
                      sender := user;
                      status := Some sent |}]
  /\ isLoading w' = false
  /\ fst (sendMessage o w) = Returned tt.
Proof.
  intros Hacc Hs w'. subst w'. rewrite sendMessage_accepted by assumption.
  cbn [fst snd]. unfold settled. rewrite Hs. cbn [chunks ending messages isLoading].
  cbn [chunk_entries]. rewrite app_nil_r.
  rewrite finish_user_last by reflexivity. auto.
Qed.

Lemma empty_stream_adds_no_remote_entry_hello :
  let o := steady {| chunks := []; ending := ends |} in
  let w := typed "hello" in
  let w' := snd (sendMessage o w) in
  messages w'
  = messages w ++ [{| id := clock o (clock_reads w);
                      content := trim (newMessageContent w);
                      sender := user;
                      status := Some sent |}]
  /\ isLoading w' = false
  /\ fst (sendMessage o w) = Returned tt.
Proof.
  apply (empty_stream_adds_no_remote_entry
           (steady {| chunks := []; ending := ends |}) (typed "hello"));
    reflexivity.
Defined.

(** C7. A call made while the busy flag is true returns normally and
    changes nothing: transcript, flag and buffer are as before, and so is
    the rest of the world (no call is issued, nothing is logged). *)
Theorem reentrant_call_is_a_no_op (o : Oracle) (w : World) :
  isLoading w = true -> sendMessage o w = (Returned tt, w).
Proof.
  intros Hl. apply sendMessage_rejected. unfold accepted. rewrite Hl.
  apply andb_false_r.
Qed.

Lemma reentrant_call_is_a_no_op_hi :
  let o := steady {| chunks := [chunk "a"]; ending := ends |} in
  sendMessage o (in_flight "hi") = (Returned tt, in_flight "hi").
Proof.
  apply (reentrant_call_is_a_no_op
           (steady {| chunks := [chunk "a"]; ending := ends |}) (in_flight "hi")).
  reflexivity.
Defined.

(** C8. A call on an idle component whose field is empty once trimmed (by
    [trim_nil_iff]: empty, or white space only) returns normally and changes
    nothing: the transcript is untouched and the busy flag is never set. *)
Theorem blank_input_is_a_no_op (o : Oracle) (w : World) :
  isLoading w = false ->
  trim (newMessageContent w) = [] ->
  sendMessage o w = (Returned tt, w).
Proof.
  intros _ Ht. apply sendMessage_rejected. unfold accepted. rewrite Ht.
  reflexivity.
Qed.

Lemma blank_input_is_a_no_op_spaces :
  let o := steady {| chunks := [chunk "a"]; ending := ends |} in
  sendMessage o (typed "   ") = (Returned tt, typed "   ").
Proof.
  apply (blank_input_is_a_no_op
           (steady {| chunks := [chunk "a"]; ending := ends |}) (typed "   "));
    reflexivity.
Defined.

(** C9. Starting from an idle component, any number of calls with an empty
    field leaves the transcript, hence its length, as it was. *)
Theorem empty_sends_keep_the_transcript (o : Oracle) (w : World) (n : nat) :
  isLoading w = false ->
  let w' := Nat.iter n (fun x => snd (send o [] x)) w in
  messages w' = messages w
  /\ length (messages w') = length (messages w).
Proof.
  intros Hl w'. subst w'.
  assert (Hstep : forall x, snd (send o [] x) = set_newMessageContent [] x).
  { intros x. unfold send, bind. cbn [modify].
    rewrite sendMessage_rejected by reflexivity. reflexivity. }
  assert (H : messages (Nat.iter n (fun x => snd (send o [] x)) w) = messages w).
  { induction n as [|n IH]; [reflexivity|].
    rewrite Nat.iter_succ, Hstep. exact IH. }
  rewrite H. split; reflexivity.
Qed.

Lemma empty_sends_keep_the_transcript_thrice :
  let o := steady {| chunks := [chunk "a"]; ending := ends |} in
  let w := snd (send o (js "hello") mounted) in
  let w' := Nat.iter 3 (fun x => snd (send o [] x)) w in
  messages w' = messages w
  /\ length (messages w') = length (messages w).
Proof.
  apply (empty_sends_keep_the_transcript
           (steady {| chunks := [chunk "a"]; ending := ends |})
           (snd (send (steady {| chunks := [chunk "a"]; ending := ends |})
                      (js "hello") mounted)) 3).
  reflexivity.
Defined.

(** C10. On an accepted call the user's entry holds the trimmed text of the
    field, not the raw text, and the payload of the one outbound call is
    that same trimmed text. *)
Theorem trimmed_text_is_stored_and_sent (o : Oracle) (w : World) :
  accepted w = true ->
  let w' := snd (sendMessage o w) in
  (exists u, messages w' !! length (messages w) = Some u
             /\ sender u = user
             /\ content u = trim (newMessageContent w))
  /\ (rpcs (during w w')).*1 = [trim (newMessageContent w)].
Proof.
  intros Hacc w'. subst w'. rewrite sendMessage_accepted by assumption.
  cbn [snd]. split.
  - destruct (settled_messages o w) as [remote [Hm _]].
    exists (user_entry o w). rewrite Hm, list_lookup_middle by reflexivity.
    auto.
  - rewrite settled_rpcs. reflexivity.
Qed.

Lemma trimmed_text_is_stored_and_sent_hi :
  let o := steady {| chunks := [chunk "a"]; ending := ends |} in
  let w := typed "  hi  " in
  let w' := snd (sendMessage o w) in
  trim (newMessageContent w) = js "hi"
  /\ (exists u, messages w' !! length (messages w) = Some u
                /\ sender u = user
                /\ content u = trim (newMessageContent w))
  /\ (rpcs (during w w')).*1 = [trim (newMessageContent w)].
Proof.
  split; [reflexivity|].
  apply (trimmed_text_is_stored_and_sent
           (steady {| chunks := [chunk "a"]; ending := ends |}) (typed "  hi  ")).
  reflexivity.
Defined.

(** C4 fails on the code.  One accepted call from the freshly mounted
    component, two chunks handled within the same millisecond, two different
    random values: [Date.now() + Math.random()] rounds both sums to the same
    number, and the two entries carry the same id. *)
Theorem ids_collide_within_a_millisecond :
  let w := snd (send rapid (js "hi") mounted) in
  (clock rapid 1 =? clock rapid 2)%float = true
  /\ (rng rapid 0 =? rng rapid 1)%float = false
  /\ (0 <=? rng rapid 0)%float && (rng rapid 0 <? 1)%float = true
  /\ (0 <=? rng rapid 1)%float && (rng rapid 1 <? 1)%float = true
  /\ exists m1 m2,
       messages w !! 1 = Some m1
       /\ messages w !! 2 = Some m2
       /\ content m1 = js "a"
       /\ content m2 = js "b"
       /\ id m1 = id m2.
Proof.
  cbv zeta. split; [reflexivity|].
  split; [reflexivity|]. split; [reflexivity|]. split; [reflexivity|].
  eexists. eexists. split; [vm_compute; reflexivity|].
  split; [vm_compute; reflexivity|]. cbn [content id].
  split; [reflexivity|]. split; [reflexivity|]. vm_compute. reflexivity.
Qed.

(** ** The scenarios of the specification, run *)

Example three_fragments_run :
  let o := steady {| chunks := [chunk "a"; chunk "b"; chunk "c"]; ending := ends |} in
  let w' := snd (send o (js "hello") mounted) in
  (fun m => (content m, sender m, status m)) <$> messages w'
  = [ (js "hello", user, Some sent);
      (js "a", api, Some streaming);
      (js "b", api, Some streaming);
      (js "c", api, Some sent) ]
  /\ isLoading w' = false
  /\ newMessageContent w' = [].
Proof. repeat split; reflexivity. Qed.

Example partial_then_failure_run :
  let o := steady {| chunks := [chunk "partial"]; ending := rejects |} in
  let w' := snd (send o (js "hello") mounted) in
  (fun m => (content m, sender m, status m)) <$> messages w'
  = [ (js "hello", user, Some sent);
      (js "partial", api, Some streaming);
      (js "Error receiving message.", api, Some failed) ]
  /\ isLoading w' = false.
Proof. repeat split; reflexivity. Qed.

Example second_turn_after_empty_stream_run :
  let o := {| clock := fun _ => 1700000000000%float;
              rng := fun _ => 0.25%float;
              server := fun k _ =>
                match k with
                | 0 => {| chunks := []; ending := ends |}
                | _ => {| chunks := [chunk "pong"]; ending := ends |}
                end |} in
  let w1 := snd (send o (js "one") mounted) in
  let w2 := snd (send o (js " two ") w1) in
  (fun m => (content m, sender m, status m)) <$> messages w2
  = [ (js "one", user, Some sent);
      (js "two", user, Some sent);
      (js "pong", api, Some sent) ].
Proof. reflexivity. Qed.

(** ** More on [trim] *)

Lemma trimStart_clean (s : JSString) : clean_start (trimStart s) = true.
Proof.
  induction s as [|c s IH]; [reflexivity|]. simpl.
  destruct (isWhiteSpace c) eqn:Hc; [exact IH | simpl; rewrite Hc; reflexivity].
Qed.

Lemma trimStart_fixed (s : JSString) : clean_start s = true -> trimStart s = s.
Proof.
  destruct s as [|c s]; [reflexivity|]. simpl. intros H.
  apply negb_true_iff in H. rewrite H. reflexivity.
Qed.

(** Trimming the start of a text that ends with a character that is not
    white space keeps that character. *)
Lemma trimStart_snoc (l : JSString) (h : code_unit) :
  isWhiteSpace h = false -> exists t, trimStart (l ++ [h]) = t ++ [h].
Proof.
  intros Hh. induction l as [|c l [t Ht]]; simpl.
  - rewrite Hh. exists []. reflexivity.
  - destruct (isWhiteSpace c); [eauto|]. exists (c :: l). reflexivity.
Qed.

Lemma trimEnd_suffix (s : JSString) :
  exists q, s = trimEnd s ++ q /\ forallb isWhiteSpace q = true.
Proof.
  unfold trimEnd. destruct (trimStart_suffix (rev s)) as [p [E Hp]].
  exists (rev p). split.
  - rewrite <- rev_app_distr, <- E, rev_involutive. reflexivity.
  - rewrite forallb_forall in *. intros x Hx. apply Hp, in_rev. exact Hx.
Qed.

Lemma trimEnd_clean_start (s : JSString) :
  clean_start s = true -> clean_start (trimEnd s) = true.
Proof.
  destruct s as [|h t]; [reflexivity|]. simpl. intros Hh.
  apply negb_true_iff in Hh. unfold trimEnd. simpl rev.
  destruct (trimStart_snoc (rev t) h Hh) as [t' Ht']. rewrite Ht'.
  rewrite rev_app_distr. simpl. rewrite Hh. reflexivity.
Qed.

Lemma trim_clean (s : JSString) :
  clean_start (trim s) = true /\ clean_start (rev (trim s)) = true.
Proof.
  unfold trim. split.
  - apply trimEnd_clean_start, trimStart_clean.
  - unfold trimEnd. rewrite rev_involutive. apply trimStart_clean.
Qed.

Lemma trim_fixed (s : JSString) :
  clean_start s = true -> clean_start (rev s) = true -> trim s = s.
Proof.
  intros H1 H2. unfold trim, trimEnd.
  rewrite (trimStart_fixed s H1), (trimStart_fixed (rev s) H2).
  apply rev_involutive.
Qed.

Lemma trim_idempotent (s : JSString) : trim (trim s) = trim s.
Proof. destruct (trim_clean s) as [H1 H2]. apply trim_fixed; assumption. Qed.

Lemma trim_infix (s : JSString) :
  exists p q, s = p ++ trim s ++ q
              /\ forallb isWhiteSpace p = true
              /\ forallb isWhiteSpace q = true.
Proof.
  destruct (trimStart_suffix s) as [p [Ep Hp]].
  destruct (trimEnd_suffix (trimStart s)) as [q [Eq Hq]].
  exists p, q. unfold trim. rewrite <- Eq. auto.
Qed.

(** ** Beyond one call: the template, the text, sessions *)

Lemma truthy_nonempty (s : JSString) : truthy s = true <-> s <> [].
Proof. destruct s; simpl; split; intros H; congruence. Qed.

Lemma accepted_elim (w : World) :
  accepted w = true -> trim (newMessageContent w) <> [] /\ isLoading w = false.
Proof.
  unfold accepted. intros H. apply andb_true_iff in H as [Ht Hl].
  apply truthy_nonempty in Ht. apply negb_true_iff in Hl. auto.
Qed.

(** X1. The text kept for the user is the text of the field with the white
    space at its two ends removed and nothing else: it is not empty, it
    neither starts nor ends with white space, and what lies between is
    untouched. *)
Theorem stored_text_is_the_field_stripped (o : Oracle) (w : World) :
  accepted w = true ->
  let w' := snd (sendMessage o w) in
  exists (u : ChatMessage) (p q : JSString),
    messages w' !! length (messages w) = Some u
    /\ newMessageContent w = p ++ content u ++ q
    /\ forallb isWhiteSpace p = true
    /\ forallb isWhiteSpace q = true
    /\ content u <> []
    /\ clean_start (content u) = true
    /\ clean_start (rev (content u)) = true.
Proof.
  intros Hacc w'. subst w'. rewrite sendMessage_accepted by assumption.
  cbn [snd]. destruct (settled_messages o w) as [remote [Hm _]].
  destruct (trim_infix (newMessageContent w)) as [p [q [E [Hp Hq]]]].
  destruct (trim_clean (newMessageContent w)) as [Hs He].
  destruct (accepted_elim w Hacc) as [Hne _].
  exists (user_entry o w), p, q.
  rewrite Hm, list_lookup_middle by reflexivity. cbn [user_entry content].
  auto 10.
Qed.

Lemma stored_text_is_the_field_stripped_hi :
  let o := steady {| chunks := [chunk "a"]; ending := ends |} in
  let w := typed "  hi there  " in
  let w' := snd (sendMessage o w) in
  exists (u : ChatMessage) (p q : JSString),
    messages w' !! length (messages w) = Some u
    /\ newMessageContent w = p ++ content u ++ q
    /\ forallb isWhiteSpace p = true
    /\ forallb isWhiteSpace q = true
    /\ content u <> []
    /\ clean_start (content u) = true
    /\ clean_start (rev (content u)) = true.
Proof.
  apply (stored_text_is_the_field_stripped
           (steady {| chunks := [chunk "a"]; ending := ends |})
           (typed "  hi there  ")).
  reflexivity.
Defined.

(** X2. White space around the submitted text changes nothing that is shown,
    sent or logged: submitting [text] and submitting [trim text] leave the
    same transcript, the same busy flag and the same log. *)
Theorem surrounding_space_is_ignored (o : Oracle) (text : JSString) (w : World) :
  let w1 := snd (send o text w) in
  let w2 := snd (send o (trim text) w) in
  messages w1 = messages w2
  /\ isLoading w1 = isLoading w2
  /\ log w1 = log w2.
Proof.
  cbv zeta. unfold send. rewrite !run_bind_modify.
  set (x1 := set_newMessageContent text w).
  set (x2 := set_newMessageContent (trim text) w).
  assert (Hacc : accepted x1 = accepted x2).
  { unfold accepted, x1, x2. cbn [set_newMessageContent newMessageContent isLoading].
    rewrite trim_idempotent. reflexivity. }
  destruct (accepted x2) eqn:H2.
  - rewrite !sendMessage_accepted by assumption. cbn [snd].
    unfold settled, user_entry, x1, x2.
    cbn [set_newMessageContent newMessageContent messages isLoading
         clock_reads rng_reads rpc_calls log].
    rewrite trim_idempotent. destruct (ending _); auto.
  - rewrite !sendMessage_rejected by assumption. auto.
Qed.

(** X3. The template and the guard agree.  The button is disabled exactly when
    the handler would stop at its guard, so a click that gets through is
    always accepted; and putting the handler behind the [disabled]
    attributes of the button and of the field changes no outcome. *)
Theorem disabled_controls_match_the_guard (o : Oracle) (w : World) :
  button_disabled w = negb (accepted w)
  /\ click o w = sendMessage o w
  /\ keyup_enter o w = sendMessage o w.
Proof.
  assert (Hb : button_disabled w = negb (accepted w)).
  { unfold button_disabled, accepted.
    destruct (truthy _), (isLoading w); reflexivity. }
  split; [exact Hb|]. split.
  - unfold click. rewrite Hb. destruct (accepted w) eqn:Hacc; [reflexivity|].
    cbn [negb]. rewrite sendMessage_rejected by assumption. reflexivity.
  - unfold keyup_enter, input_disabled. destruct (isLoading w) eqn:Hl; [|reflexivity].
    rewrite sendMessage_rejected; [reflexivity|].
    unfold accepted. rewrite Hl. apply andb_false_r.
Qed.

Lemma chunk_entries_shape (o : Oracle) (c r : nat)
    (fs : list Pb.SendMessageResponse) :
  Forall entry_shape (chunk_entries o c r fs).
Proof.
  eapply Forall_impl; [apply chunk_entries_api|].
  intros m [Hs Hst]. right. left. auto.
Qed.

Lemma marked_chunks_shape (o : Oracle) (c r i : nat)
    (fs : list Pb.SendMessageResponse) :
  Forall entry_shape (alter (with_status sent) i (chunk_entries o c r fs)).
Proof.
  apply Forall_forall. intros m Hm.
  apply list_elem_of_lookup in Hm as [j Hj].
  pose proof (chunk_entries_shape o c r fs) as Hsh.
  pose proof (chunk_entries_api o c r fs) as Hapi.
  rewrite Forall_forall in Hsh, Hapi.
  rewrite list_lookup_alter in Hj.
  destruct (decide (i = j)) as [E|E].
  - destruct (chunk_entries o c r fs !! i) as [b|] eqn:Hb; [|discriminate].
    inversion Hj; subst m. right. left. cbn [with_status sender status].
    split; [|auto]. apply (Hapi b). apply list_elem_of_lookup. eauto.
  - apply (Hsh m). apply list_elem_of_lookup. eauto.
Qed.

(** What an accepted call appends, by shape. *)
Lemma settled_shape (o : Oracle) (w : World) :
  accepted w = true ->
  exists remote,
    messages (settled o w) = messages w ++ user_entry o w :: remote
    /\ Forall (fun m => sender m = api) remote
    /\ Forall entry_shape (user_entry o w :: remote).
Proof.
  intros Hacc. destruct (accepted_elim w Hacc) as [Hne _].
  assert (Hu : entry_shape (user_entry o w)) by (left; auto).
  unfold settled.
  set (it := server o (rpc_calls w) (trim (newMessageContent w))).
  destruct (ending it); cbn [messages].
  - destruct (chunks it) as [|f fs] eqn:Hc.
    + exists []. cbn [chunk_entries]. rewrite app_nil_r.
      rewrite finish_user_last by reflexivity. auto.
    + eexists. rewrite finish_chunks by discriminate. rewrite <- app_assoc.
      split; [reflexivity|]. split; [apply marked_chunks_api|].
      constructor; [exact Hu | apply marked_chunks_shape].
  - eexists. rewrite <- !app_assoc. split; [reflexivity|]. split.
    + apply Forall_app. split.
      * eapply Forall_impl; [apply chunk_entries_api|]. intros m [H _]. exact H.
      * constructor; [reflexivity | constructor].
    + constructor; [exact Hu|]. apply Forall_app. split.
      * apply chunk_entries_shape.
      * constructor; [|constructor]. right. right. auto.
Qed.

Lemma call_appends (o : Oracle) (w : World) :
  exists added,
    messages (snd (sendMessage o w)) = messages w ++ added
    /\ Forall entry_shape added.
Proof.
  destruct (accepted w) eqn:Hacc.
  - rewrite sendMessage_accepted by assumption. cbn [snd].
    destruct (settled_shape o w Hacc) as [remote [Hm [_ Hsh]]]. eauto.
  - rewrite sendMessage_rejected by assumption. exists [].
    rewrite app_nil_r. auto.
Qed.

Lemma session_cons (o : Oracle) (text : JSString) (texts : list JSString)
    (w : World) :
  session o (text :: texts) w = session o texts (snd (send o text w)).
Proof. reflexivity. Qed.

Lemma send_run (o : Oracle) (text : JSString) (w : World) :
  send o text w = sendMessage o (set_newMessageContent text w).
Proof. unfold send. rewrite run_bind_modify. reflexivity. Qed.

(** X4. The transcript only grows, and only by entries of three shapes.
    Whatever is submitted, in any number of turns, with whatever answers
    from the service: what was in the transcript stays, in place and
    unchanged, and every entry added is the user's with status [sent] and a
    text that is not empty, or the service's with status [streaming] or
    [sent], or the service's with status [failed] and the fixed text.  No
    entry is left without a status or with status [sending]. *)
Theorem transcript_only_grows (o : Oracle) (texts : list JSString) (w : World) :
  exists added,
    messages (session o texts w) = messages w ++ added
    /\ Forall entry_shape added.
Proof.
  revert w. induction texts as [|text texts IH]; intros w.
  - exists []. rewrite app_nil_r. split; [reflexivity | constructor].
  - rewrite session_cons, send_run.
    destruct (call_appends o (set_newMessageContent text w)) as [a1 [H1 S1]].
    destruct (IH (snd (sendMessage o (set_newMessageContent text w))))
      as [a2 [H2 S2]].
    exists (a1 ++ a2). rewrite H2, H1. cbn [set_newMessageContent messages].
    rewrite <- app_assoc. split; [reflexivity|]. apply Forall_app. auto.
Qed.

(** X5. When an accepted call is over, the last entry of the transcript is
    settled: its status is [sent] or [failed], never [streaming]. *)
Theorem last_entry_is_settled (o : Oracle) (w : World) :
  accepted w = true ->
  exists m, last (messages (snd (sendMessage o w))) = Some m
            /\ (status m = Some sent \/ status m = Some failed).
Proof.
  intros Hacc. rewrite sendMessage_accepted by assumption. cbn [snd].
  unfold settled.
  set (it := server o (rpc_calls w) (trim (newMessageContent w))).
  destruct (ending it); cbn [messages].
  - destruct (chunks it) as [|f fs] eqn:Hc.
    + cbn [chunk_entries]. rewrite app_nil_r.
      rewrite finish_user_last by reflexivity.
      exists (user_entry o w). rewrite last_snoc. auto.
    + rewrite finish_chunks by discriminate.
      set (bs := chunk_entries o (S (clock_reads w)) (rng_reads w) (f :: fs)).
      assert (Hlen : length bs = length (f :: fs)) by apply length_chunk_entries.
      destruct (bs !! (length (f :: fs) - 1)) as [b|] eqn:Hb.
      * exists (with_status sent b). split; [|auto].
        rewrite last_lookup, length_app, length_alter, Hlen.
        rewrite lookup_app_r by (simpl; lia).
        replace (pred (length (messages w ++ [user_entry o w])
                       + length (f :: fs))
                 - length (messages w ++ [user_entry o w]))
          with (length (f :: fs) - 1)
          by (rewrite length_app; simpl; lia).
        rewrite list_lookup_alter_eq, Hb. reflexivity.
      * apply lookup_ge_None in Hb. simpl in Hb, Hlen. lia.
  - eexists. rewrite last_snoc. split; [reflexivity|]. auto.
Qed.

Lemma last_entry_is_settled_partial :
  let o := steady {| chunks := [chunk "a"; chunk "b"]; ending := ends |} in
  let w := typed "hello" in
  exists m, last (messages (snd (sendMessage o w))) = Some m
            /\ (status m = Some sent \/ status m = Some failed).
Proof.
  apply (last_entry_is_settled
           (steady {| chunks := [chunk "a"; chunk "b"]; ending := ends |})
           (typed "hello")).
  reflexivity.
Defined.

Lemma from_user_app (l1 l2 : list ChatMessage) :
  from_user (l1 ++ l2) = from_user l1 ++ from_user l2.
Proof. apply List.filter_app. Qed.

Lemma from_user_api (l : list ChatMessage) :
  Forall (fun m => sender m = api) l -> from_user l = [].
Proof.
  induction 1 as [|m l Hm _ IH]; [reflexivity|].
  cbn [from_user List.filter]. rewrite Hm. exact IH.
Qed.

Lemma log_settled (o : Oracle) (w : World) :
  log (settled o w) = log w ++ during w (settled o w).
Proof.
  unfold during, settled. destruct (ending _); cbn [log].
  - rewrite drop_app_length. reflexivity.
  - rewrite <- !app_assoc, drop_app_length. reflexivity.
Qed.

(** One submission on an idle component. *)
Lemma submission_step (o : Oracle) (text : JSString) (w : World) :
  isLoading w = false ->
  let w' := snd (send o text w) in
  let sent_text := List.filter truthy [trim text] in
  isLoading w' = false
  /\ content <$> from_user (messages w')
     = (content <$> from_user (messages w)) ++ sent_text
  /\ (rpcs (log w')).*1 = (rpcs (log w)).*1 ++ sent_text.
Proof.
  intros Hl. cbv zeta. rewrite send_run.
  set (x := set_newMessageContent text w).
  assert (Hacc : accepted x = truthy (trim text)).
  { unfold accepted, x. cbn [set_newMessageContent newMessageContent isLoading].
    rewrite Hl. apply andb_true_r. }
  cbn [List.filter]. destruct (truthy (trim text)) eqn:Ht.
  - rewrite sendMessage_accepted by assumption. cbn [snd].
    destruct (settled_messages o x) as [remote [Hm Hr]].
    split; [unfold settled; destruct (ending _); reflexivity|]. split.
    + rewrite Hm. change (messages x) with (messages w).
      rewrite from_user_app. cbn [from_user List.filter user_entry sender Sender_eqb].
      fold (from_user remote). rewrite (from_user_api remote Hr).
      rewrite fmap_app. reflexivity.
    + rewrite log_settled, rpcs_app, settled_rpcs, fmap_app. reflexivity.
  - rewrite sendMessage_rejected by assumption. cbn [snd].
    rewrite !app_nil_r. auto.
Qed.

Lemma session_from_idle (o : Oracle) (texts : list JSString) (w : World) :
  isLoading w = false ->
  let w' := session o texts w in
  let sent_texts := List.filter truthy (trim <$> texts) in
  isLoading w' = false
  /\ content <$> from_user (messages w')
     = (content <$> from_user (messages w)) ++ sent_texts
  /\ (rpcs (log w')).*1 = (rpcs (log w)).*1 ++ sent_texts.
Proof.
  revert w. induction texts as [|text texts IH]; intros w Hl; cbv zeta.
  - cbn. rewrite !app_nil_r. auto.
  - rewrite session_cons.
    destruct (submission_step o text w Hl) as [H1 [H2 H3]].
    destruct (IH _ H1) as [I1 [I2 I3]].
    split; [exact I1|].
    assert (E : List.filter truthy (trim <$> text :: texts)
                = List.filter truthy [trim text]
                    ++ List.filter truthy (trim <$> texts)).
    { cbn [fmap list_fmap List.filter app].
      destruct (truthy (trim text)); reflexivity. }
    rewrite E, I2, I3, H2, H3, <- !app_assoc. auto.
Qed.

(** X6. The user's side of the transcript is what the user submitted.  Starting
    from an idle component, after any number of turns the entries of the
    user read, in order, the submitted texts trimmed, blank submissions left
    out; nothing is dropped, repeated or reordered.  And the component is
    idle again. *)
Theorem user_entries_are_the_submissions (o : Oracle) (texts : list JSString)
    (w : World) :
  isLoading w = false ->
  let w' := session o texts w in
  content <$> from_user (messages w')
  = (content <$> from_user (messages w)) ++ List.filter truthy (trim <$> texts)
  /\ isLoading w' = false.
Proof.
  intros Hl. destruct (session_from_idle o texts w Hl) as [H1 [H2 _]]. auto.
Qed.

Lemma user_entries_are_the_submissions_three :
  let o := steady {| chunks := [chunk "a"]; ending := rejects |} in
  let texts := [js " one "; js "   "; js "two"] in
  let w' := session o texts mounted in
  content <$> from_user (messages w')
  = (content <$> from_user (messages mounted))
      ++ List.filter truthy (trim <$> texts)
  /\ isLoading w' = false.
Proof.
  apply (user_entries_are_the_submissions
           (steady {| chunks := [chunk "a"]; ending := rejects |})
           [js " one "; js "   "; js "two"] mounted).
  reflexivity.
Defined.

(** X7. The service is called once per submission that is not blank, with the
    trimmed text, in the order of submission: there is no call for a blank
    submission and no second call after a failure. *)
Theorem calls_are_the_submissions (o : Oracle) (texts : list JSString)
    (w : World) :
  isLoading w = false ->
  let w' := session o texts w in
  (rpcs (log w')).*1
  = (rpcs (log w)).*1 ++ List.filter truthy (trim <$> texts)
  /\ rpc_calls w' = rpc_calls w + length (List.filter truthy (trim <$> texts)).
Proof.
  intros Hl. destruct (session_from_idle o texts w Hl) as [_ [_ H3]].
  split; [exact H3|]. clear H3.
  revert w Hl. induction texts as [|text texts IH]; intros w Hl.
  - cbn. lia.
  - rewrite session_cons.
    destruct (submission_step o text w Hl) as [H1 _].
    rewrite (IH _ H1). clear IH. rewrite send_run.
    set (x := set_newMessageContent text w).
    assert (Hacc : accepted x = truthy (trim text)).
    { unfold accepted, x. cbn [set_newMessageContent newMessageContent isLoading].
      rewrite Hl. apply andb_true_r. }
    cbn [fmap list_fmap List.filter].
    destruct (truthy (trim text)) eqn:Ht.
    + rewrite sendMessage_accepted by assumption. cbn [snd length].
      unfold settled. destruct (ending _); cbn [rpc_calls];
        change (rpc_calls x) with (rpc_calls w); lia.
    + rewrite sendMessage_rejected by assumption. reflexivity.
Qed.

Lemma calls_are_the_submissions_three :
  let o := steady {| chunks := [chunk "a"]; ending := rejects |} in
  let texts := [js " one "; js "   "; js "two"] in
  let w' := session o texts mounted in
  (rpcs (log w')).*1
  = (rpcs (log mounted)).*1 ++ List.filter truthy (trim <$> texts)
  /\ rpc_calls w'
     = rpc_calls mounted + length (List.filter truthy (trim <$> texts)).
Proof.
  apply (calls_are_the_submissions
           (steady {| chunks := [chunk "a"]; ending := rejects |})
           [js " one "; js "   "; js "two"] mounted).
  reflexivity.
Defined.

Lemma length_finish (l : list ChatMessage) : length (finish l) = length l.
Proof.
  unfold finish. destruct (last l) as [m|]; [|reflexivity].
  destruct (Sender_eqb (sender m) api); [apply length_alter | reflexivity].
Qed.

Lemma scroll_views_app (l1 l2 : list Event) :
  scroll_views (l1 ++ l2) = scroll_views l1 ++ scroll_views l2.
Proof. apply omap_app. Qed.

Lemma scroll_views_loop_events (inp : JSString) (dis : bool)
    (before bs : list ChatMessage) :
  (fun v => length (shown v)) <$> scroll_views (loop_events inp dis before bs)
  = seq (S (length before)) (length bs).
Proof.
  revert before. induction bs as [|b bs IH]; intros before; [reflexivity|].
  change (scroll_views (loop_events inp dis before (b :: bs)))
    with ({| shown := before ++ [b]; input := inp; disabled := dis |}
            :: scroll_views (loop_events inp dis (before ++ [b]) bs)).
  rewrite fmap_cons, IH. cbn [shown length seq].
  rewrite length_app. cbn [length]. rewrite Nat.add_1_r. reflexivity.
Qed.

(** X8. Every entry pushed is followed by one request to scroll, made when that
    entry is the last of the transcript, and there is no other request: the
    views at the scroll requests of a call show transcripts of lengths
    [n + 1], [n + 2], ... up to the final length, where [n] is the length
    before the call.  A call stopped by the guard requests no scroll. *)
Theorem one_scroll_per_entry (o : Oracle) (w : World) :
  let w' := snd (sendMessage o w) in
  (fun v => length (shown v)) <$> scroll_views (during w w')
  = seq (S (length (messages w)))
        (length (messages w') - length (messages w)).
Proof.
  cbv zeta. destruct (accepted w) eqn:Hacc.
  - rewrite sendMessage_accepted by assumption. cbn [snd].
    pose proof (during_settled o w) as Hd. cbv zeta in Hd. rewrite Hd. clear Hd.
    unfold settled.
    set (it := server o (rpc_calls w) (trim (newMessageContent w))).
    set (bs := chunk_entries o (S (clock_reads w)) (rng_reads w) (chunks it)).
    set (base := messages w ++ [user_entry o w]).
    assert (Hbase : length base = S (length (messages w)))
      by (unfold base; rewrite length_app; simpl; lia).
    change ([seen [] true Scroll base;
             seen [] true (Rpc (trim (newMessageContent w))) base]
              ++ ?rest)
      with (seen [] true Scroll base
              :: seen [] true (Rpc (trim (newMessageContent w))) base :: rest).
    change (scroll_views
              (seen [] true Scroll base
                 :: seen [] true (Rpc (trim (newMessageContent w))) base
                 :: ?rest))
      with ({| shown := base; input := []; disabled := true |}
              :: scroll_views rest).
    rewrite fmap_cons, scroll_views_app, fmap_app, scroll_views_loop_events.
    cbn [shown]. rewrite Hbase.
    destruct (ending it); cbn [messages].
    + rewrite length_finish, length_app, Hbase.
      replace (S (length (messages w)) + length bs - length (messages w))
        with (S (length bs)) by lia.
      cbn [scroll_views omap fmap list_fmap seq]. rewrite app_nil_r.
      reflexivity.
    + rewrite !length_app, Hbase. cbn [length].
      replace (S (length (messages w)) + length bs + 1 - length (messages w))
        with (S (S (length bs))) by lia.
      rewrite (seq_S (S (length bs))). cbn [seq].
      change (scroll_views [seen [] true ConsoleError (base ++ bs);
                            seen [] true Scroll ((base ++ bs) ++ [error_entry o
                              (S (clock_reads w) + length (chunks it))
                              (rng_reads w + length (chunks it))])])
        with [{| shown := (base ++ bs) ++ [error_entry o
                              (S (clock_reads w) + length (chunks it))
                              (rng_reads w + length (chunks it))];
                 input := []; disabled := true |}].
      cbn [fmap list_fmap shown]. rewrite !length_app, Hbase. cbn [length app].
      f_equal. f_equal. f_equal. lia.
  - rewrite sendMessage_rejected by assumption. cbn [snd]. unfold during.
    rewrite drop_all, Nat.sub_diag. reflexivity.
Qed.

